(** * Clock deviation utility: the "more than half" synchronisation decision

    A shallow embedding of [src/deviation_average.c] and the properties its
    specification states about it.

    Number model.  The C code computes on [long] values and on the fields of
    [struct sync], whose declaration ([more_than_half.h]) is not among the
    sources.  Two readings of the same statements are given.  In the first
    every scalar is a mathematical integer ([Z]): it is the program under
    exact integer arithmetic.  In the second, [Long], the two sums are 64-bit
    signed fields, as [long] and the note on [int64_t] at line 103 have
    them, and every addition and subtraction on them wraps round modulo
    2^64.  The two agree for as long as the sums stay in range.  C's [/] on
    integers is truncating division ([Z.quot]); a zero divisor has no defined
    result and is kept as an explicit failure ([None]).  [labs] is [Z.abs],
    which is what C computes for every [long] but [LONG_MIN].

    Memory model.  The history region handed to [more_than_half_reset] is
    owned by the caller and only referenced by the engine.  It is modelled by
    its contents, a [list Z] with one element per slot, held in the history
    record; each store of the code is an in-place update of that list, so the
    contents found by a later reset on the same region are the ones the
    record holds at that moment. *)

From Stdlib Require Import ZArith Lia.
From stdpp Require Import base list.

Local Open Scope Z_scope.

(** ** The deviation history ([deviation_history.h]) *)

Module History.

(** Modelled from the spec: [struct deviation_history] is declared in
    [deviation_history.h], which is missing.  The specification gives it a
    caller-owned buffer of signed integers, a fixed capacity and an
    insertion cursor, the index of the next slot to overwrite. *)
Record deviation_history_t : Type := mk_history {
  buffer : list Z;
  capacity : Z;
  cursor : Z
}.

(** Modelled from the spec: [deviation_history_reset] is missing.
    "Binds storage and capacity, sets cursor to 0."  The storage is bound as
    it is: nothing is written to it. *)
Definition deviation_history_reset
    (h : deviation_history_t) (addr : list Z) (size : Z)
    : deviation_history_t :=
  {| buffer := addr; capacity := size; cursor := 0 |}.

(** Modelled from the spec: [deviation_history_get_last] is missing.
    "Returns the value currently occupying the slot the next insertion
    will overwrite."  A cursor outside the buffer is a breach of the
    caller's contract; the model reads 0 there. *)
Definition deviation_history_get_last (h : deviation_history_t) : Z :=
  default 0 (buffer h !! Z.to_nat (cursor h)).

(** Modelled from the spec: [deviation_history_insert] is missing.
    "Writes sample into the slot identified by the cursor, then advances
    the cursor by one position modulo capacity."  A store outside the
    buffer (contract breach) leaves the list as it is. *)
Definition deviation_history_insert
    (h : deviation_history_t) (sample : Z) : deviation_history_t :=
  {| buffer := <[Z.to_nat (cursor h) := sample]> (buffer h);
     capacity := capacity h;
     cursor := (cursor h + 1) mod capacity h |}.

(** The data-model invariant of a history of [C] slots. *)
Definition wf (C : Z) (h : deviation_history_t) : Prop :=
  capacity h = C /\ length (buffer h) = Z.to_nat C /\ 0 <= cursor h < C.

End History.

Export History.

(** ** The sync state ([more_than_half.h]) *)

(** The fields [more_than_half_do_sync] and [more_than_half_reset] read and
    write; the declaration of [struct sync] itself is in the missing header. *)
Record sync : Type := mk_sync {
  deviation_history : deviation_history_t;
  half_history_size : Z;
  max_deviation : Z;
  misses : Z;
  out_of_sync_sum : Z;
  total_sum : Z
}.

(** Field stores, [s->f = v]. *)
Definition set_deviation_history (s : sync) (h : deviation_history_t) : sync :=
  mk_sync h (half_history_size s) (max_deviation s)
          (misses s) (out_of_sync_sum s) (total_sum s).

Definition set_half_history_size (s : sync) (v : Z) : sync :=
  mk_sync (deviation_history s) v (max_deviation s)
          (misses s) (out_of_sync_sum s) (total_sum s).

Definition set_max_deviation (s : sync) (v : Z) : sync :=
  mk_sync (deviation_history s) (half_history_size s) v
          (misses s) (out_of_sync_sum s) (total_sum s).

Definition set_misses (s : sync) (v : Z) : sync :=
  mk_sync (deviation_history s) (half_history_size s) (max_deviation s)
          v (out_of_sync_sum s) (total_sum s).

Definition set_out_of_sync_sum (s : sync) (v : Z) : sync :=
  mk_sync (deviation_history s) (half_history_size s) (max_deviation s)
          (misses s) v (total_sum s).

Definition set_total_sum (s : sync) (v : Z) : sync :=
  mk_sync (deviation_history s) (half_history_size s) (max_deviation s)
          (misses s) (out_of_sync_sum s) v.

(** C's integer division: truncation toward zero, undefined on a zero
    divisor. *)
Definition c_div (a b : Z) : option Z :=
  if b =? 0 then None else Some (a ÷ b).

(** [labs(x) > m], the test that makes a deviation out-of-sync. *)
Definition out_of_sync (m x : Z) : bool := Z.abs x >? m.

(** ** [more_than_half_do_sync] (deviation_average.c, lines 69-106)

    The stores of lines 75-95, in program order. *)
Definition do_sync_update (s : sync) (deviation : Z) : sync :=
  let tail_deviation := deviation_history_get_last (deviation_history s) in
  let s := set_total_sum s (total_sum s - tail_deviation) in
  let s := set_total_sum s (total_sum s + deviation) in
  let s :=
    if out_of_sync (max_deviation s) tail_deviation then
      let s := set_misses s (misses s - 1) in
      set_out_of_sync_sum s (out_of_sync_sum s - tail_deviation)
    else s in
  let s :=
    if out_of_sync (max_deviation s) deviation then
      let s := set_misses s (misses s + 1) in
      set_out_of_sync_sum s (out_of_sync_sum s + deviation)
    else s in
  set_deviation_history s
    (deviation_history_insert (deviation_history s) deviation).

(** The decision of lines 101-105, on the updated state.  [None] is the
    division by zero. *)
Definition do_sync_decide (s : sync) : option Z :=
  if misses s >? half_history_size s
  then c_div (out_of_sync_sum s) (misses s)
  else Some 0.

(** The whole call: the state it leaves and the value it returns. *)
Definition more_than_half_do_sync (s : sync) (deviation : Z)
    : sync * option Z :=
  let s := do_sync_update s deviation in
  (s, do_sync_decide s).

(** ** [more_than_half_reset] (deviation_average.c, lines 108-125)

    [history_size] is an [unsigned int] and [allowed_deviation] an
    [unsigned long]; [history_size / 2] is C's division. *)
Definition more_than_half_reset
    (s : sync) (history_addr : list Z) (history_size : Z)
    (allowed_deviation : Z) : sync * Z :=
  let s := set_deviation_history s
             (deviation_history_reset (deviation_history s)
                                      history_addr history_size) in
  let s := set_half_history_size s (history_size ÷ 2) in
  let s := set_max_deviation s allowed_deviation in
  let s := set_misses s 0 in
  let s := set_out_of_sync_sum s 0 in
  let s := set_total_sum s 0 in
  (s, 0).

(** ** Runs *)

(** Feeding a sequence of samples, one call each: the final state and the
    values returned, in order. *)
Fixpoint do_sync_all (s : sync) (samples : list Z) : sync * list (option Z) :=
  match samples with
  | [] => (s, [])
  | d :: rest =>
      let (s1, r) := more_than_half_do_sync s d in
      let (s2, rs) := do_sync_all s1 rest in
      (s2, r :: rs)
  end.

(** ** The same code with 64-bit sums *)

Definition long_max : Z := 2 ^ 63 - 1.

Definition long_min : Z := - 2 ^ 63.

(** The value a 64-bit signed field holds after an operation whose exact
    result is [x]: [x] itself when it fits, reduced modulo 2^64 into the
    range otherwise. *)
Definition wrap_long (x : Z) : Z := (x - long_min) mod 2 ^ 64 + long_min.

Module Long.

(** Lines 75-95 with [total_sum] and [out_of_sync_sum] as 64-bit signed
    fields.  [misses] is a count of window entries and is left exact. *)
Definition do_sync_update (s : sync) (deviation : Z) : sync :=
  let tail_deviation := deviation_history_get_last (deviation_history s) in
  let s := set_total_sum s (wrap_long (total_sum s - tail_deviation)) in
  let s := set_total_sum s (wrap_long (total_sum s + deviation)) in
  let s :=
    if out_of_sync (max_deviation s) tail_deviation then
      let s := set_misses s (misses s - 1) in
      set_out_of_sync_sum s (wrap_long (out_of_sync_sum s - tail_deviation))
    else s in
  let s :=
    if out_of_sync (max_deviation s) deviation then
      let s := set_misses s (misses s + 1) in
      set_out_of_sync_sum s (wrap_long (out_of_sync_sum s + deviation))
    else s in
  set_deviation_history s
    (deviation_history_insert (deviation_history s) deviation).

(** Lines 69-106: the stores, then the decision of lines 101-105. *)
Definition more_than_half_do_sync (s : sync) (deviation : Z)
    : sync * option Z :=
  let s := do_sync_update s deviation in
  (s, do_sync_decide s).

Fixpoint do_sync_all (s : sync) (samples : list Z) : sync * list (option Z) :=
  match samples with
  | [] => (s, [])
  | d :: rest =>
      let (s1, r) := more_than_half_do_sync s d in
      let (s2, rs) := do_sync_all s1 rest in
      (s2, r :: rs)
  end.

End Long.

(** A region of [C] slots that holds zeros. *)
Definition zeroed (C : Z) : list Z := replicate (Z.to_nat C) 0.

(** The state left by a reset on a zeroed region of [C] slots with
    threshold [T], whatever the instance held before. *)
Definition fresh (s0 : sync) (C T : Z) : sync :=
  fst (more_than_half_reset s0 (zeroed C) C T).

(** ** Recomputation over the window

    The window is the whole buffer.  These are the O(capacity) scans the
    incremental counters stand for. *)
Definition window (s : sync) : list Z := buffer (deviation_history s).

(** A later reset of the same instance on the same region: the region holds
    what the calls so far have stored in it. *)
Definition reset_again (s : sync) (C T : Z) : sync :=
  fst (more_than_half_reset s (window s) C T).

Fixpoint sum_all (l : list Z) : Z :=
  match l with
  | [] => 0
  | x :: l => x + sum_all l
  end.

Fixpoint count_out (T : Z) (l : list Z) : Z :=
  match l with
  | [] => 0
  | x :: l => (if out_of_sync T x then 1 else 0) + count_out T l
  end.

Fixpoint sum_out (T : Z) (l : list Z) : Z :=
  match l with
  | [] => 0
  | x :: l => (if out_of_sync T x then x else 0) + sum_out T l
  end.

(** The invariant of the sync state over a history of [C] slots with
    threshold [T]. *)
Record sync_inv (C T : Z) (s : sync) : Prop := mk_sync_inv {
  inv_history : wf C (deviation_history s);
  inv_half : half_history_size s = C ÷ 2;
  inv_max : max_deviation s = T;
  inv_misses : misses s = count_out T (window s);
  inv_out_sum : out_of_sync_sum s = sum_out T (window s);
  inv_total : total_sum s = sum_all (window s)
}.

(** Two slot values the decision cannot tell apart: equal, or both within
    the threshold. *)
Definition alike (T a b : Z) : Prop :=
  a = b \/ (out_of_sync T a = false /\ out_of_sync T b = false).

(** Two states the decision cannot tell apart, now or after any further
    calls: they agree on everything but [total_sum], and slot by slot their
    windows are alike. *)
Record same_decisions (T : Z) (a b : sync) : Prop := mk_same_decisions {
  sd_max_a : max_deviation a = T;
  sd_max_b : max_deviation b = T;
  sd_half : half_history_size a = half_history_size b;
  sd_misses : misses a = misses b;
  sd_out_sum : out_of_sync_sum a = out_of_sync_sum b;
  sd_capacity :
    capacity (deviation_history a) = capacity (deviation_history b);
  sd_cursor : cursor (deviation_history a) = cursor (deviation_history b);
  sd_window : Forall2 (alike T) (window a) (window b)
}.

(** An arbitrary earlier content of the instance, for the examples. *)
Definition blank : sync := mk_sync (mk_history [] 0 0) 0 0 0 0 0.

(** The window in order of age, oldest entry first: the slots from the
    cursor to the end of the buffer, then the slots before the cursor. *)
Definition oldest_first (h : deviation_history_t) : list Z :=
  drop (Z.to_nat (cursor h)) (buffer h) ++
  take (Z.to_nat (cursor h)) (buffer h).

(** The last [C] elements of a sequence, all of it when it is shorter. *)
Definition recent (C : Z) (l : list Z) : list Z :=
  drop (length l - Z.to_nat C)%nat l.

(** The state left by a reset on a region with the contents [addr]. *)
Definition started (s0 : sync) (addr : list Z) (C T : Z) : sync :=
  fst (more_than_half_reset s0 addr C T).

(** Two states that are mirror images: the same configuration, cursor and
    miss count, opposite sums and opposite window entries. *)
Record mirrored (a b : sync) : Prop := mk_mirrored {
  mi_max : max_deviation a = max_deviation b;
  mi_half : half_history_size a = half_history_size b;
  mi_misses : misses a = misses b;
  mi_out_sum : out_of_sync_sum a = - out_of_sync_sum b;
  mi_total : total_sum a = - total_sum b;
  mi_capacity :
    capacity (deviation_history a) = capacity (deviation_history b);
  mi_cursor : cursor (deviation_history a) = cursor (deviation_history b);
  mi_window : window a = Z.opp <$> window b
}.

(** A state of the exact reading and the state of the 64-bit reading that
    goes with it: the same but for the two sums, which are held wrapped. *)
Record wrapped (e m : sync) : Prop := mk_wrapped {
  wr_history : deviation_history m = deviation_history e;
  wr_half : half_history_size m = half_history_size e;
  wr_max : max_deviation m = max_deviation e;
  wr_misses : misses m = misses e;
  wr_out_sum : out_of_sync_sum m = wrap_long (out_of_sync_sum e);
  wr_total : total_sum m = wrap_long (total_sum e)
}.

(** ** Scans and in-place updates *)

Section Scans.

Variable T : Z.

Lemma sum_all_insert (l : list Z) (i : nat) (old x : Z) :
  l !! i = Some old ->
  sum_all (<[i := x]> l) = sum_all l - old + x.
Proof.
  revert i. induction l as [|y l IH]; intros [|i] Hi; simplify_eq/=.
  - lia.
  - rewrite (IH i Hi). lia.
Qed.

Lemma count_out_insert (l : list Z) (i : nat) (old x : Z) :
  l !! i = Some old ->
  count_out T (<[i := x]> l) =
  count_out T l - (if out_of_sync T old then 1 else 0)
                + (if out_of_sync T x then 1 else 0).
Proof.
  revert i. induction l as [|y l IH]; intros [|i] Hi; simplify_eq/=.
  - lia.
  - rewrite (IH i Hi). lia.
Qed.

Lemma sum_out_insert (l : list Z) (i : nat) (old x : Z) :
  l !! i = Some old ->
  sum_out T (<[i := x]> l) =
  sum_out T l - (if out_of_sync T old then old else 0)
              + (if out_of_sync T x then x else 0).
Proof.
  revert i. induction l as [|y l IH]; intros [|i] Hi; simplify_eq/=.
  - lia.
  - rewrite (IH i Hi). lia.
Qed.

Lemma count_out_bounds (l : list Z) :
  0 <= count_out T l <= Z.of_nat (length l).
Proof.
  induction l as [|y l IH]; simpl length; simpl count_out; [lia|].
  destruct (out_of_sync T y); lia.
Qed.

Lemma out_of_sync_zero : 0 <= T -> out_of_sync T 0 = false.
Proof.
  intros HT. unfold out_of_sync. change (Z.abs 0) with 0.
  destruct (Z.gtb_spec 0 T); [lia | reflexivity].
Qed.

End Scans.

(** ** The ring of the history *)

Section Ring.

Variable C : Z.
Hypothesis C_pos : 1 <= C.

Lemma wf_reset (h : deviation_history_t) (addr : list Z) :
  length addr = Z.to_nat C -> wf C (deviation_history_reset h addr C).
Proof. intros Hlen. unfold wf; simpl. repeat split; [done | lia..]. Qed.

Lemma wf_insert (h : deviation_history_t) (x : Z) :
  wf C h -> wf C (deviation_history_insert h x).
Proof using Type.
  clear C_pos. intros (Hcap & Hlen & Hcur). unfold wf; simpl.
  rewrite length_insert, Hcap. repeat split; try done.
  all: apply Z.mod_pos_bound; lia.
Qed.

Lemma wf_get_last (h : deviation_history_t) :
  wf C h ->
  buffer h !! Z.to_nat (cursor h) = Some (deviation_history_get_last h).
Proof using Type.
  clear C_pos. intros (Hcap & Hlen & Hcur). unfold deviation_history_get_last.
  destruct (lookup_lt_is_Some_2 (buffer h) (Z.to_nat (cursor h)))
    as [v Hv]; [lia|].
  by rewrite Hv.
Qed.

(** One step round the ring moves the cursor by one slot, and comes back
    to slot 0 after the last one. *)
Lemma cursor_insert (h : deviation_history_t) (x : Z) :
  wf C h ->
  cursor (deviation_history_insert h x) =
  if cursor h + 1 =? C then 0 else cursor h + 1.
Proof using Type.
  clear C_pos. intros (Hcap & Hlen & Hcur). simpl. rewrite Hcap.
  destruct (Z.eqb_spec (cursor h + 1) C) as [->|Hne].
  - apply Z_mod_same_full.
  - apply Z.mod_small. lia.
Qed.



End Ring.

(** ** What one call stores *)

Lemma do_sync_update_history (s : sync) (d : Z) :
  deviation_history (do_sync_update s d) =
  deviation_history_insert (deviation_history s) d.
Proof.
  unfold do_sync_update; simpl.
  repeat (match goal with |- context [if ?b then _ else _] => destruct b end);
    reflexivity.
Qed.

Lemma do_sync_update_half (s : sync) (d : Z) :
  half_history_size (do_sync_update s d) = half_history_size s.
Proof.
  unfold do_sync_update; simpl.
  repeat (match goal with |- context [if ?b then _ else _] => destruct b end);
    reflexivity.
Qed.

Lemma do_sync_update_max (s : sync) (d : Z) :
  max_deviation (do_sync_update s d) = max_deviation s.
Proof.
  unfold do_sync_update; simpl.
  repeat (match goal with |- context [if ?b then _ else _] => destruct b end);
    reflexivity.
Qed.

Lemma do_sync_update_total (s : sync) (d : Z) :
  total_sum (do_sync_update s d) =
  total_sum s - deviation_history_get_last (deviation_history s) + d.
Proof.
  unfold do_sync_update; simpl.
  repeat (match goal with |- context [if ?b then _ else _] => destruct b end);
    reflexivity.
Qed.

Lemma do_sync_update_misses (s : sync) (d : Z) :
  let tail := deviation_history_get_last (deviation_history s) in
  misses (do_sync_update s d) =
  misses s - (if out_of_sync (max_deviation s) tail then 1 else 0)
           + (if out_of_sync (max_deviation s) d then 1 else 0).
Proof.
  unfold do_sync_update; simpl.
  destruct (out_of_sync _ (deviation_history_get_last _));
    simpl; destruct (out_of_sync _ d); simpl; lia.
Qed.

Lemma do_sync_update_out_sum (s : sync) (d : Z) :
  let tail := deviation_history_get_last (deviation_history s) in
  out_of_sync_sum (do_sync_update s d) =
  out_of_sync_sum s - (if out_of_sync (max_deviation s) tail then tail else 0)
                    + (if out_of_sync (max_deviation s) d then d else 0).
Proof.
  unfold do_sync_update; simpl.
  destruct (out_of_sync _ (deviation_history_get_last _));
    simpl; destruct (out_of_sync _ d); simpl; lia.
Qed.

(** ** The invariant: established by reset, kept by every call *)

Section Invariant.

Variables C T : Z.
Hypothesis C_pos : 1 <= C.
Hypothesis T_nonneg : 0 <= T.

Lemma scans_zeroed :
  sum_all (zeroed C) = 0 /\ count_out T (zeroed C) = 0 /\
  sum_out T (zeroed C) = 0.
Proof using T_nonneg.
  unfold zeroed. induction (Z.to_nat C) as [|n (IH1 & IH2 & IH3)]; simpl.
  - done.
  - rewrite IH1, IH2, IH3, (out_of_sync_zero T T_nonneg). done.
Qed.

Lemma sync_inv_fresh (s0 : sync) : sync_inv C T (fresh s0 C T).
Proof using C_pos T_nonneg.
  destruct scans_zeroed as (H1 & H2 & H3).
  split; unfold fresh, window; simpl; try done.
  apply wf_reset; [done|]. unfold zeroed. by rewrite length_replicate.
Qed.

Lemma sync_inv_update (s : sync) (d : Z) :
  sync_inv C T s -> sync_inv C T (do_sync_update s d).
Proof using Type.
  clear C_pos T_nonneg. intros [Hwf Hhalf Hmax Hmis Hout Htot].
  pose proof (wf_get_last C (deviation_history s) Hwf) as Hlast.
  split; unfold window in *.
  - rewrite do_sync_update_history. by apply wf_insert.
  - by rewrite do_sync_update_half.
  - by rewrite do_sync_update_max.
  - rewrite do_sync_update_misses, do_sync_update_history, Hmax, Hmis; simpl.
    by rewrite (count_out_insert T _ _ _ d Hlast).
  - rewrite do_sync_update_out_sum, do_sync_update_history, Hmax, Hout; simpl.
    by rewrite (sum_out_insert T _ _ _ d Hlast).
  - rewrite do_sync_update_total, do_sync_update_history, Htot; simpl.
    by rewrite (sum_all_insert _ _ _ d Hlast).
Qed.

Lemma sync_inv_all (samples : list Z) (s : sync) :
  sync_inv C T s -> sync_inv C T (fst (do_sync_all s samples)).
Proof using Type.
  clear C_pos T_nonneg. revert s. induction samples as [|d rest IH]; intros s Hs; simpl; [done|].
  specialize (IH (do_sync_update s d) (sync_inv_update s d Hs)).
  destruct (do_sync_all (do_sync_update s d) rest); done.
Qed.

Lemma sync_inv_misses_bounds (s : sync) :
  sync_inv C T s -> 0 <= misses s <= C.
Proof using Type.
  clear C_pos T_nonneg. intros [(Hcap & Hlen & Hcur) _ _ Hmis _ _]. rewrite Hmis.
  pose proof (count_out_bounds T (window s)) as Hb.
  unfold window in *. lia.
Qed.

End Invariant.

(** ** The decision *)

Lemma do_sync_all_update (s : sync) (d : Z) (rest : list Z) :
  fst (do_sync_all s (d :: rest)) = fst (do_sync_all (do_sync_update s d) rest).
Proof. simpl. by destruct (do_sync_all (do_sync_update s d) rest). Qed.

Lemma do_sync_all_app (s : sync) (l1 l2 : list Z) :
  fst (do_sync_all s (l1 ++ l2)) =
  fst (do_sync_all (fst (do_sync_all s l1)) l2).
Proof.
  revert s. induction l1 as [|d l1 IH]; intros s; [done|].
  rewrite <- app_comm_cons, !do_sync_all_update. apply IH.
Qed.

Lemma do_sync_all_history (samples : list Z) (s : sync) :
  deviation_history (fst (do_sync_all s samples)) =
  foldl deviation_history_insert (deviation_history s) samples.
Proof.
  revert s. induction samples as [|d rest IH]; intros s; [done|].
  by rewrite do_sync_all_update, IH, do_sync_update_history.
Qed.

Lemma half_is_floor (C : Z) : 0 <= C -> C ÷ 2 = C / 2.
Proof. intros HC. apply Z.quot_div_nonneg; lia. Qed.

Lemma do_sync_decide_eq (s : sync) :
  0 <= half_history_size s ->
  do_sync_decide s =
  Some (if misses s >? half_history_size s
        then out_of_sync_sum s ÷ misses s else 0).
Proof.
  intros Hhalf. unfold do_sync_decide, c_div.
  destruct (Z.gtb_spec (misses s) (half_history_size s)) as [Hgt|Hle]; [|done].
  destruct (Z.eqb_spec (misses s) 0) as [H0|H0]; [lia|done].
Qed.

(** Under the invariant the decision reads off the scan of the window. *)
Lemma do_sync_decide_scan (C T : Z) (s : sync) :
  1 <= C -> sync_inv C T s ->
  do_sync_decide s =
  Some (if count_out T (window s) >? C / 2
        then sum_out T (window s) ÷ count_out T (window s) else 0).
Proof.
  intros HC [_ Hhalf _ Hmis Hout _].
  rewrite half_is_floor in Hhalf by lia.
  rewrite do_sync_decide_eq by (rewrite Hhalf; apply Z.div_pos; lia).
  by rewrite Hhalf, Hmis, Hout.
Qed.

(** ** Runs that return the same values *)

Section Simulation.

Variable T : Z.

Lemma alike_get_last (a b : sync) :
  same_decisions T a b ->
  alike T (deviation_history_get_last (deviation_history a))
          (deviation_history_get_last (deviation_history b)).
Proof.
  intros Hab. unfold deviation_history_get_last.
  rewrite <- (sd_cursor T a b Hab).
  pose proof (sd_window T a b Hab) as Hw. unfold window in Hw.
  rewrite Forall2_lookup in Hw.
  destruct (Hw (Z.to_nat (cursor (deviation_history a)))); simpl.
  - assumption.
  - by left.
Qed.

Lemma same_decisions_update (a b : sync) (d : Z) :
  same_decisions T a b ->
  same_decisions T (do_sync_update a d) (do_sync_update b d).
Proof.
  intros Hab. pose proof (alike_get_last a b Hab) as Hlast.
  destruct Hab as [Ha Hb Hhalf Hmis Hout Hcap Hcur Hw].
  split; unfold window;
    rewrite ?do_sync_update_max, ?do_sync_update_half,
      ?do_sync_update_misses, ?do_sync_update_out_sum,
      ?do_sync_update_history; simpl; try done.
  - rewrite Ha, Hb, Hmis. destruct Hlast as [->|[-> ->]]; done.
  - rewrite Ha, Hb, Hout. destruct Hlast as [->|[-> ->]]; done.
  - by rewrite Hcap, Hcur.
  - rewrite Hcur. apply Forall2_insert; [done | by left].
Qed.

Lemma same_decisions_decide (a b : sync) :
  same_decisions T a b -> do_sync_decide a = do_sync_decide b.
Proof.
  intros [_ _ Hhalf Hmis Hout _ _ _]. unfold do_sync_decide.
  by rewrite Hhalf, Hmis, Hout.
Qed.

Lemma same_decisions_all (samples : list Z) (a b : sync) :
  same_decisions T a b ->
  snd (do_sync_all a samples) = snd (do_sync_all b samples).
Proof.
  revert a b. induction samples as [|d rest IH]; intros a b Hab; [done|].
  pose proof (same_decisions_update a b d Hab) as Hab'.
  simpl. rewrite (same_decisions_decide _ _ Hab').
  specialize (IH _ _ Hab').
  destruct (do_sync_all (do_sync_update a d) rest),
           (do_sync_all (do_sync_update b d) rest).
  simpl in *. by rewrite IH.
Qed.

Lemma count_out_zero (l : list Z) :
  count_out T l = 0 -> Forall (fun x => out_of_sync T x = false) l.
Proof.
  induction l as [|x l IH]; simpl; intros Hc; [constructor|].
  pose proof (count_out_bounds T l).
  destruct (out_of_sync T x) eqn:Hx; [lia|].
  constructor; [done | apply IH; lia].
Qed.

End Simulation.

Lemma window_length_all (samples : list Z) (s : sync) :
  length (window (fst (do_sync_all s samples))) = length (window s).
Proof.
  revert s. induction samples as [|d rest IH]; intros s; [done|].
  rewrite do_sync_all_update, IH. unfold window.
  rewrite do_sync_update_history. simpl. apply length_insert.
Qed.

(** Calls return values for as long as [half_history_size] is not
    negative, which reset ensures for every capacity. *)
Lemma do_sync_all_returns (samples : list Z) (s : sync) :
  0 <= half_history_size s ->
  Forall is_Some (snd (do_sync_all s samples)).
Proof.
  revert s. induction samples as [|d rest IH]; intros s Hhalf.
  - constructor.
  - assert (Hhalf' : 0 <= half_history_size (do_sync_update s d))
      by (by rewrite do_sync_update_half).
    specialize (IH _ Hhalf'). cbn [do_sync_all more_than_half_do_sync].
    destruct (do_sync_all (do_sync_update s d) rest). cbn [snd] in *.
    constructor; [|done]. rewrite (do_sync_decide_eq _ Hhalf'). eauto.
Qed.

(** The failure of the model is a real one: with a negative
    [half_history_size], which no reset produces, the division is reached
    with [misses = 0]. *)
Example division_by_zero_needs_negative_half :
  snd (more_than_half_do_sync
         (mk_sync (mk_history [0] 1 0) (-1) 10 0 0 0) 0) = None.
Proof. reflexivity. Qed.

(** Capacity 1: the one slot is evicted and rewritten by every call. *)
Example single_slot_history :
  do_sync_all (fresh blank 1 10) [50; 3; -20] =
  (mk_sync (mk_history [-20] 1 0) 0 10 1 (-20) (-20),
   [Some 50; Some 0; Some (-20)]).
Proof. reflexivity. Qed.

(** ** The 64-bit sums against the exact ones *)

Lemma wrap_long_range (x : Z) : long_min <= wrap_long x <= long_max.
Proof.
  unfold wrap_long, long_min, long_max.
  pose proof (Z.mod_pos_bound (x - - 2 ^ 63) (2 ^ 64) ltac:(lia)). lia.
Qed.

Lemma wrap_long_id (x : Z) : long_min <= x <= long_max -> wrap_long x = x.
Proof.
  unfold wrap_long, long_min, long_max. intros Hx.
  rewrite Z.mod_small by lia. lia.
Qed.

Lemma wrap_long_add (a b : Z) : wrap_long (wrap_long a + b) = wrap_long (a + b).
Proof.
  unfold wrap_long.
  replace ((a - long_min) mod 2 ^ 64 + long_min + b - long_min)
    with ((a - long_min) mod 2 ^ 64 + b) by lia.
  rewrite Z.add_mod_idemp_l by lia. do 2 f_equal. lia.
Qed.

Lemma wrap_long_sub (a b : Z) : wrap_long (wrap_long a - b) = wrap_long (a - b).
Proof. rewrite <- !Z.add_opp_r. apply wrap_long_add. Qed.

Lemma wrapped_update (e m : sync) (d : Z) :
  wrapped e m -> wrapped (do_sync_update e d) (Long.do_sync_update m d).
Proof.
  intros [Hh Hhalf Hmax Hmis Hout Htot].
  destruct e as [eh ehalf emax emis eout etot],
           m as [mh mhalf mmax mmis mout mtot].
  simpl in *. subst.
  cbv beta iota zeta delta
    [do_sync_update Long.do_sync_update set_total_sum set_misses
     set_out_of_sync_sum set_deviation_history deviation_history
     half_history_size max_deviation misses out_of_sync_sum total_sum].
  destruct (out_of_sync emax (deviation_history_get_last eh));
    destruct (out_of_sync emax d);
    split; cbn [deviation_history half_history_size max_deviation misses
                out_of_sync_sum total_sum];
    rewrite ?wrap_long_sub, ?wrap_long_add; reflexivity.
Qed.

Lemma wrapped_all (samples : list Z) (e m : sync) :
  wrapped e m ->
  wrapped (fst (do_sync_all e samples)) (fst (Long.do_sync_all m samples)).
Proof.
  revert e m. induction samples as [|d rest IH]; intros e m Hem; [done|].
  rewrite do_sync_all_update.
  specialize (IH _ _ (wrapped_update e m d Hem)).
  cbn [Long.do_sync_all Long.more_than_half_do_sync].
  by destruct (Long.do_sync_all (Long.do_sync_update m d) rest).
Qed.

Lemma wrapped_started (s0 : sync) (addr : list Z) (C T : Z) :
  wrapped (started s0 addr C T) (started s0 addr C T).
Proof. by split. Qed.

(** The decision of the 64-bit reading, under the invariant of the exact
    one: the miss count is the scan, the sum is the scan wrapped. *)
Lemma long_decide_scan (C T : Z) (e m : sync) :
  1 <= C -> sync_inv C T e -> wrapped e m ->
  window m = window e /\
  misses m = count_out T (window m) /\
  out_of_sync_sum m = wrap_long (sum_out T (window m)) /\
  half_history_size m = C / 2 /\
  do_sync_decide m =
  Some (if count_out T (window m) >? C / 2
        then wrap_long (sum_out T (window m)) ÷ count_out T (window m)
        else 0).
Proof.
  intros HC [_ Hhalf _ Hmis Hout _] [Hh Hmhalf _ Hmmis Hmout _].
  rewrite half_is_floor in Hhalf by lia.
  assert (Hw : window m = window e) by (unfold window; by rewrite Hh).
  rewrite Hw, Hmmis, Hmout, Hmhalf, Hmis, Hout, Hhalf.
  repeat split; try done.
  assert (Hmh : 0 <= half_history_size m)
    by (rewrite Hmhalf, Hhalf; apply Z.div_pos; lia).
  rewrite (do_sync_decide_eq m Hmh).
  by rewrite Hmmis, Hmout, Hmhalf, Hmis, Hout, Hhalf.
Qed.

(** The state of the 64-bit reading after a run and one more call, with the
    state of the exact reading that goes with it. *)
Lemma long_call_wrapped (C T : Z) (s0 : sync) (samples : list Z) (d : Z) :
  1 <= C -> 0 <= T ->
  let e := do_sync_update (fst (do_sync_all (fresh s0 C T) samples)) d in
  let m :=
    Long.do_sync_update (fst (Long.do_sync_all (fresh s0 C T) samples)) d in
  sync_inv C T e /\ wrapped e m.
Proof.
  intros HC HT e m. split.
  - by apply sync_inv_update, sync_inv_all, sync_inv_fresh.
  - apply wrapped_update, wrapped_all.
    apply (wrapped_started s0 (zeroed C) C T).
Qed.

(** * The properties of the specification *)

(** C1.  After a reset on a zeroed region of [C >= 1] slots with a threshold
    [T >= 0], and after any sequence of calls (so after each call of a longer
    run as well), the counters are what a full scan of the window gives:
    [misses] is the number of entries whose absolute value exceeds [T],
    [out_of_sync_sum] the sum of exactly those, [total_sum] the sum of all
    entries, and [0 <= misses <= C]. *)
Theorem counters_match_window_scan
    (C T : Z) (s0 : sync) (samples : list Z) :
  1 <= C -> 0 <= T ->
  let s := fst (do_sync_all (fresh s0 C T) samples) in
  length (window s) = Z.to_nat C /\
  misses s = count_out T (window s) /\
  out_of_sync_sum s = sum_out T (window s) /\
  total_sum s = sum_all (window s) /\
  0 <= misses s <= C.
Proof.
  intros HC HT s.
  assert (Hinv : sync_inv C T s)
    by (apply sync_inv_all, sync_inv_fresh; assumption).
  pose proof (sync_inv_misses_bounds C T s Hinv) as Hb.
  destruct Hinv as [(_ & Hlen & _) _ _ Hmis Hout Htot].
  unfold window in *. auto.
Qed.

Lemma counters_match_window_scan_witness :
  1 <= 4 /\ 0 <= 10 /\
  misses (fst (do_sync_all (fresh blank 4 10) [5; 30; -40; 2; 50])) =
  count_out 10
    (window (fst (do_sync_all (fresh blank 4 10) [5; 30; -40; 2; 50]))).
Proof.
  split; [lia|]. split; [lia|].
  apply (counters_match_window_scan 4 10 blank [5; 30; -40; 2; 50]); lia.
Defined.

(** C2, as stated, fails on the 64-bit sums: with capacity 2 and threshold
    10 on a zeroed region, the sample [long_max] fed twice leaves two
    out-of-range entries in the window, whose truncated average is
    [long_max]; [out_of_sync_sum] has wrapped round to -2 and the call
    returns -1. *)
Lemma wrapped_sum_is_not_the_average :
  count_out 10
    (window (fst (Long.more_than_half_do_sync
                    (fst (Long.do_sync_all (fresh blank 2 10) [long_max]))
                    long_max))) > 2 / 2 /\
  snd (Long.more_than_half_do_sync
         (fst (Long.do_sync_all (fresh blank 2 10) [long_max])) long_max) =
  Some (-1) /\
  sum_out 10
    (window (fst (Long.more_than_half_do_sync
                    (fst (Long.do_sync_all (fresh blank 2 10) [long_max]))
                    long_max)))
  ÷ count_out 10
    (window (fst (Long.more_than_half_do_sync
                    (fst (Long.do_sync_all (fresh blank 2 10) [long_max]))
                    long_max))) = long_max /\
  snd (Long.more_than_half_do_sync
         (fst (Long.do_sync_all (fresh blank 2 10) [long_max])) long_max) <>
  Some
    (sum_out 10
       (window (fst (Long.more_than_half_do_sync
                       (fst (Long.do_sync_all (fresh blank 2 10) [long_max]))
                       long_max)))
     ÷ count_out 10
       (window (fst (Long.more_than_half_do_sync
                       (fst (Long.do_sync_all (fresh blank 2 10) [long_max]))
                       long_max)))).
Proof. vm_compute. repeat split. discriminate. Qed.

(** C2, amended.  With [C >= 1] and [T >= 0], in a run started by a reset on
    a zeroed region: when, after the updates of a call, more than [C / 2]
    (floor) entries of the window exceed [T] in absolute value, the call
    returns [out_of_sync_sum / misses]; and that is the truncated average of
    exactly the out-of-range entries of the window provided their sum lies
    within the range of the 64-bit signed field that holds it. *)
Theorem correction_is_truncated_average
    (C T : Z) (s0 : sync) (samples : list Z) (d : Z) :
  1 <= C -> 0 <= T ->
  let call :=
    Long.more_than_half_do_sync
      (fst (Long.do_sync_all (fresh s0 C T) samples)) d in
  count_out T (window (fst call)) > C / 2 ->
  snd call = Some (out_of_sync_sum (fst call) ÷ misses (fst call)) /\
  (long_min <= sum_out T (window (fst call)) <= long_max ->
   snd call = Some (sum_out T (window (fst call))
                    ÷ count_out T (window (fst call)))).
Proof.
  intros HC HT call Hmany. subst call.
  unfold Long.more_than_half_do_sync in *. cbn [fst snd] in *.
  destruct (long_call_wrapped C T s0 samples d HC HT) as (Hinv & Hwr).
  set (m := Long.do_sync_update _ d) in *.
  destruct (long_decide_scan C T _ m HC Hinv Hwr)
    as (_ & Hmis & Hout & _ & Hdec).
  rewrite Hdec.
  destruct (Z.gtb_spec (count_out T (window m)) (C / 2)); [|lia].
  split; [by rewrite Hmis, Hout|].
  intros Hfits. by rewrite wrap_long_id.
Qed.

Lemma correction_is_truncated_average_witness :
  1 <= 4 /\ 0 <= 10 /\
  snd (Long.more_than_half_do_sync
         (fst (Long.do_sync_all (fresh blank 4 10) [5; 30; -40; 2])) 50) =
  Some (sum_out 10 [50; 30; -40; 2] ÷ count_out 10 [50; 30; -40; 2]).
Proof.
  split; [lia|]. split; [lia|].
  apply (correction_is_truncated_average 4 10 blank [5; 30; -40; 2] 50);
    [lia | lia | reflexivity | vm_compute; split; discriminate].
Defined.

(** C3.  With [C >= 1] and [T >= 0], in a run started by a reset on a zeroed
    region: when, after the updates of a call, at most [C / 2] (floor)
    entries of the window exceed [T] in absolute value, the call returns 0. *)
Theorem minority_returns_zero
    (C T : Z) (s0 : sync) (samples : list Z) (d : Z) :
  1 <= C -> 0 <= T ->
  let call :=
    more_than_half_do_sync (fst (do_sync_all (fresh s0 C T) samples)) d in
  count_out T (window (fst call)) <= C / 2 ->
  snd call = Some 0.
Proof.
  intros HC HT call Hfew. subst call.
  unfold more_than_half_do_sync in *. cbn [fst snd] in *.
  set (s' := do_sync_update _ d) in *.
  assert (Hinv : sync_inv C T s')
    by (apply sync_inv_update, sync_inv_all, sync_inv_fresh; assumption).
  rewrite (do_sync_decide_scan C T s' HC Hinv).
  by destruct (Z.gtb_spec (count_out T (window s')) (C / 2)); [lia|].
Qed.

Lemma minority_returns_zero_witness :
  1 <= 4 /\ 0 <= 10 /\
  snd (more_than_half_do_sync
         (fst (do_sync_all (fresh blank 4 10) [5; 30; -40])) 2) = Some 0.
Proof.
  split; [lia|]. split; [lia|].
  apply (minority_returns_zero 4 10 blank [5; 30; -40] 2);
    [lia | lia | vm_compute; discriminate].
Defined.

(** C4.  The worked example: capacity 4, threshold 10, zeroed region.  The
    samples 5, 30, -40, 2 make every call return 0 and leave [misses = 2],
    [out_of_sync_sum = -10], [half_history_size = 2]; a fifth sample 50
    evicts the 5, gives [misses = 3] and returns (30 - 40 + 50) / 3 = 13. *)
Theorem worked_example (s0 : sync) :
  let run4 := do_sync_all (fresh s0 4 10) [5; 30; -40; 2] in
  let call5 := more_than_half_do_sync (fst run4) 50 in
  snd run4 = [Some 0; Some 0; Some 0; Some 0] /\
  misses (fst run4) = 2 /\
  out_of_sync_sum (fst run4) = -10 /\
  half_history_size (fst run4) = 2 /\
  deviation_history_get_last (deviation_history (fst run4)) = 5 /\
  window (fst call5) = [50; 30; -40; 2] /\
  misses (fst call5) = 3 /\
  snd call5 = Some 13 /\
  (30 - 40 + 50) ÷ 3 = 13.
Proof. vm_compute. repeat split. Qed.

(** C5, as stated, fails: with capacity 2 and threshold 10 on a zeroed
    region, the samples 30 and -30 leave [misses = 2 > 1 =
    half_history_size], and the second call returns 0 / 2 = 0. *)
Lemma out_of_sync_call_returns_zero :
  misses (fst (more_than_half_do_sync
                 (fst (do_sync_all (fresh blank 2 10) [30])) (-30))) >
  half_history_size (fst (more_than_half_do_sync
                 (fst (do_sync_all (fresh blank 2 10) [30])) (-30))) /\
  snd (more_than_half_do_sync
         (fst (do_sync_all (fresh blank 2 10) [30])) (-30)) = Some 0.
Proof. vm_compute. split; reflexivity. Qed.

(** C5, amended.  A call on a state with [half_history_size >= 0] has one of
    two outcomes: when [misses <= half_history_size] after its updates it
    returns 0; when [misses > half_history_size] it returns the truncated
    quotient [out_of_sync_sum / misses], which is nonzero exactly when
    [misses <= |out_of_sync_sum|]. *)
Theorem two_outcomes (s : sync) (d : Z) :
  0 <= half_history_size s ->
  let call := more_than_half_do_sync s d in
  (misses (fst call) <= half_history_size (fst call) -> snd call = Some 0) /\
  (misses (fst call) > half_history_size (fst call) ->
   snd call = Some (out_of_sync_sum (fst call) ÷ misses (fst call)) /\
   (out_of_sync_sum (fst call) ÷ misses (fst call) <> 0 <->
    misses (fst call) <= Z.abs (out_of_sync_sum (fst call)))).
Proof.
  intros Hhalf call. subst call.
  unfold more_than_half_do_sync. cbn [fst snd].
  set (s' := do_sync_update s d).
  assert (Hhalf' : 0 <= half_history_size s')
    by (subst s'; by rewrite do_sync_update_half).
  rewrite (do_sync_decide_eq s' Hhalf').
  destruct (Z.gtb_spec (misses s') (half_history_size s')) as [Hgt|Hle].
  - split; [lia|]. intros _. split; [done|].
    rewrite Z.quot_small_iff by lia. lia.
  - split; [done|lia].
Qed.

Lemma two_outcomes_witness :
  0 <= half_history_size (fst (do_sync_all (fresh blank 2 10) [30])) /\
  (misses (fst (more_than_half_do_sync
                  (fst (do_sync_all (fresh blank 2 10) [30])) (-30))) <=
   half_history_size (fst (more_than_half_do_sync
                  (fst (do_sync_all (fresh blank 2 10) [30])) (-30))) ->
   snd (more_than_half_do_sync
          (fst (do_sync_all (fresh blank 2 10) [30])) (-30)) = Some 0).
Proof.
  split; [vm_compute; discriminate|].
  apply (two_outcomes (fst (do_sync_all (fresh blank 2 10) [30])) (-30)).
  vm_compute; discriminate.
Defined.

(** C6, as stated, fails: with capacity 1 and threshold 10, a first run on
    a zeroed region returns 50 for the sample 50; after a second reset on
    the same region, which now holds that 50, the same sample returns 0. *)
Lemma second_run_differs :
  snd (do_sync_all
         (reset_again (fst (do_sync_all (fresh blank 1 10) [50])) 1 10)
         [50]) <>
  snd (do_sync_all (fresh blank 1 10) [50]).
Proof. vm_compute. discriminate. Qed.

(** C6, amended.  Reset does not clear the region.  When the region holds
    no out-of-range entry at the second reset (in particular when the caller
    has zeroed it again), a run started by that reset returns, for the same
    samples, the same values as the run started on the zeroed region. *)
Theorem second_run_same_returns
    (C T : Z) (s0 : sync) (before samples : list Z) :
  0 <= T ->
  count_out T (window (fst (do_sync_all (fresh s0 C T) before))) = 0 ->
  snd (do_sync_all
         (reset_again (fst (do_sync_all (fresh s0 C T) before)) C T)
         samples) =
  snd (do_sync_all (fresh s0 C T) samples).
Proof.
  intros HT Hclean. apply (same_decisions_all T).
  set (s1 := fst (do_sync_all (fresh s0 C T) before)) in *.
  split; try reflexivity.
  change (Forall2 (alike T) (window s1) (zeroed C)).
  apply Forall2_replicate_r.
  - subst s1. rewrite window_length_all. unfold fresh, window; simpl.
    unfold zeroed. apply length_replicate.
  - apply count_out_zero in Hclean.
    eapply Forall_impl; [exact Hclean|]. intros x Hx. right.
    split; [exact Hx | by apply out_of_sync_zero].
Qed.

Lemma second_run_same_returns_witness :
  0 <= 10 /\
  snd (do_sync_all
         (reset_again
            (fst (do_sync_all (fresh blank 2 10) [30; 40; 5; -7])) 2 10)
         [30; 40; 5; -7]) =
  snd (do_sync_all (fresh blank 2 10) [30; 40; 5; -7]).
Proof.
  split; [lia|].
  apply (second_run_same_returns 2 10 blank [30; 40; 5; -7] [30; 40; 5; -7]);
    [lia | reflexivity].
Defined.



(** C8.  A call never divides by zero: on a state with
    [half_history_size >= 0] the division is reached only with
    [misses > half_history_size], hence [misses >= 1], and the call returns
    a value. *)
Theorem no_division_by_zero (s : sync) (d : Z) :
  0 <= half_history_size s ->
  (misses (fst (more_than_half_do_sync s d)) >
     half_history_size (fst (more_than_half_do_sync s d)) ->
   1 <= misses (fst (more_than_half_do_sync s d))) /\
  exists r : Z, snd (more_than_half_do_sync s d) = Some r.
Proof.
  intros Hhalf. unfold more_than_half_do_sync. cbn [fst snd].
  assert (Hhalf' : 0 <= half_history_size (do_sync_update s d))
    by (by rewrite do_sync_update_half).
  split; [lia|].
  rewrite (do_sync_decide_eq _ Hhalf'). eauto.
Qed.

Lemma no_division_by_zero_witness :
  0 <= half_history_size (fresh blank 1 0) /\
  exists r : Z, snd (more_than_half_do_sync (fresh blank 1 0) 7) = Some r.
Proof.
  split; [vm_compute; discriminate|].
  apply (no_division_by_zero (fresh blank 1 0) 7).
  vm_compute; discriminate.
Defined.

(** C9.  For a capacity [C >= 1] and a threshold [T >= 0], reset returns 0
    and leaves [half_history_size = C / 2] (floor), [max_deviation = T],
    [misses = 0], [out_of_sync_sum = 0] and [total_sum = 0], with the history
    bound to the given region and capacity. *)
Theorem reset_succeeds (s : sync) (addr : list Z) (C T : Z) :
  1 <= C -> 0 <= T ->
  let r := more_than_half_reset s addr C T in
  snd r = 0 /\
  half_history_size (fst r) = C / 2 /\
  max_deviation (fst r) = T /\
  misses (fst r) = 0 /\
  out_of_sync_sum (fst r) = 0 /\
  total_sum (fst r) = 0 /\
  deviation_history (fst r) = mk_history addr C 0.
Proof.
  intros HC HT r. subst r. cbn.
  rewrite half_is_floor by lia. repeat split.
Qed.

Lemma reset_succeeds_witness :
  1 <= 10 /\ 0 <= 3 /\
  snd (more_than_half_reset blank (zeroed 10) 10 3) = 0 /\
  half_history_size (fst (more_than_half_reset blank (zeroed 10) 10 3)) = 5.
Proof.
  split; [lia|]. split; [lia|].
  pose proof (reset_succeeds blank (zeroed 10) 10 3 ltac:(lia) ltac:(lia))
    as (Hret & Hhalf & _).
  split; [exact Hret | exact Hhalf].
Defined.

(** C10.  A call leaves the configuration alone: [max_deviation] and
    [half_history_size] are the same before and after, for every state and
    every sample. *)
Theorem do_sync_keeps_configuration (s : sync) (d : Z) :
  max_deviation (fst (more_than_half_do_sync s d)) = max_deviation s /\
  half_history_size (fst (more_than_half_do_sync s d)) = half_history_size s.
Proof.
  unfold more_than_half_do_sync. cbn [fst].
  by rewrite do_sync_update_max, do_sync_update_half.
Qed.

(** * Further properties of the code *)

(** ** The window as a queue *)

Section Queue.

Variable C : Z.

(** One insertion drops the oldest entry and appends the sample. *)
Lemma oldest_first_insert (h : deviation_history_t) (x : Z) :
  wf C h ->
  oldest_first (deviation_history_insert h x) = drop 1 (oldest_first h) ++ [x].
Proof.
  intros (Hcap & Hlen & Hcur). unfold oldest_first. simpl. rewrite Hcap.
  remember (Z.to_nat (cursor h)) as c eqn:Hcdef.
  assert (Hc : (c < length (buffer h))%nat) by lia.
  destruct (lookup_lt_is_Some_2 (buffer h) c Hc) as [y Hy].
  rewrite <- (take_drop_middle (buffer h) c y Hy) at 3.
  rewrite (drop_app_length' (take c (buffer h)))
    by (rewrite length_take; lia).
  simpl. rewrite drop_0.
  destruct (Z.eq_dec (cursor h + 1) C) as [Hlast|Hmore].
  - rewrite Hlast, Z_mod_same_full. change (Z.to_nat 0) with 0%nat.
    rewrite drop_0, take_0, app_nil_r.
    rewrite (drop_ge (buffer h) (S c)) by lia. simpl.
    rewrite insert_take_drop by lia.
    by rewrite (drop_ge (buffer h) (S c)) by lia.
  - rewrite Z.mod_small by lia.
    replace (Z.to_nat (cursor h + 1)) with (c + 1)%nat by lia.
    rewrite drop_insert_lt by lia.
    rewrite insert_take_drop by lia.
    replace (c + 1)%nat with (S c) at 1 by lia.
    rewrite (take_app_add' (take c (buffer h)) _ c 1)
      by (rewrite length_take; lia).
    simpl. rewrite take_0. by rewrite <- app_assoc.
Qed.

Lemma oldest_first_length (h : deviation_history_t) :
  length (oldest_first h) = length (buffer h).
Proof.
  unfold oldest_first. rewrite length_app, length_drop, length_take. lia.
Qed.

(** After any number of insertions the window holds, in order of age, the
    last [C] elements of what it held followed by what was inserted. *)
Lemma oldest_first_foldl (l : list Z) (h : deviation_history_t) :
  1 <= C -> wf C h ->
  oldest_first (foldl deviation_history_insert h l) =
  drop (length l) (oldest_first h ++ l).
Proof.
  intros HC. revert h. induction l as [|x l IH]; intros h Hwf.
  - simpl. by rewrite drop_0, app_nil_r.
  - simpl foldl. rewrite IH by (by apply wf_insert).
    rewrite (oldest_first_insert h x Hwf).
    pose proof (oldest_first_length h) as Hlen.
    destruct Hwf as (_ & Hblen & _).
    destruct (oldest_first h) as [|y q]; [simpl in Hlen; lia|].
    simpl. rewrite drop_0. by rewrite <- app_assoc.
Qed.

End Queue.

(** ** Scans of the window in order of age *)

Section ScanQueue.

Variable T : Z.

Lemma sum_all_app (l k : list Z) : sum_all (l ++ k) = sum_all l + sum_all k.
Proof. induction l as [|x l IH]; simpl; lia. Qed.

Lemma count_out_app (l k : list Z) :
  count_out T (l ++ k) = count_out T l + count_out T k.
Proof. induction l as [|x l IH]; simpl; lia. Qed.

Lemma sum_out_app (l k : list Z) :
  sum_out T (l ++ k) = sum_out T l + sum_out T k.
Proof. induction l as [|x l IH]; simpl; lia. Qed.

(** The order of age is a rotation of the buffer: the scans agree. *)
Lemma scans_oldest_first (h : deviation_history_t) :
  sum_all (oldest_first h) = sum_all (buffer h) /\
  count_out T (oldest_first h) = count_out T (buffer h) /\
  sum_out T (oldest_first h) = sum_out T (buffer h).
Proof.
  unfold oldest_first.
  rewrite <- (take_drop (Z.to_nat (cursor h)) (buffer h)) at 3 6 9.
  rewrite !sum_all_app, !count_out_app, !sum_out_app. lia.
Qed.

Lemma scans_zeros (n : nat) :
  0 <= T ->
  sum_all (replicate n 0) = 0 /\ count_out T (replicate n 0) = 0 /\
  sum_out T (replicate n 0) = 0.
Proof.
  intros HT. induction n as [|n (IH1 & IH2 & IH3)]; simpl; [done|].
  by rewrite IH1, IH2, IH3, (out_of_sync_zero T HT).
Qed.

End ScanQueue.

(** What is left of a zeroed region and the samples stored over it: zeros
    for the slots not yet written, then the recent samples. *)
Lemma drop_zeroed_app (C : Z) (l : list Z) :
  drop (length l) (zeroed C ++ l) =
  replicate (Z.to_nat C - length l)%nat 0 ++ recent C l.
Proof.
  unfold zeroed, recent.
  rewrite drop_app, drop_replicate, length_replicate. done.
Qed.

Lemma oldest_first_started
    (C T : Z) (s0 : sync) (addr samples : list Z) :
  1 <= C -> length addr = Z.to_nat C ->
  oldest_first
    (deviation_history (fst (do_sync_all (started s0 addr C T) samples))) =
  drop (length samples) (addr ++ samples).
Proof.
  intros HC Hlen. rewrite do_sync_all_history.
  rewrite (oldest_first_foldl C) by (done || by apply wf_reset).
  unfold started, oldest_first; simpl.
  change (Z.to_nat 0) with 0%nat. by rewrite drop_0, take_0, app_nil_r.
Qed.

(** After a reset on a zeroed region the scans of the window are the scans
    of the recent samples. *)
Lemma scans_window_recent (C T : Z) (s0 : sync) (samples : list Z) :
  1 <= C -> 0 <= T ->
  let s := fst (do_sync_all (fresh s0 C T) samples) in
  sum_all (window s) = sum_all (recent C samples) /\
  count_out T (window s) = count_out T (recent C samples) /\
  sum_out T (window s) = sum_out T (recent C samples).
Proof.
  intros HC HT s.
  destruct (scans_oldest_first T (deviation_history s)) as (H1 & H2 & H3).
  unfold window. rewrite <- H1, <- H2, <- H3. subst s.
  change (fresh s0 C T) with (started s0 (zeroed C) C T).
  rewrite oldest_first_started
    by (done || unfold zeroed; by rewrite length_replicate).
  rewrite drop_zeroed_app, sum_all_app, count_out_app, sum_out_app.
  destruct (scans_zeros T (Z.to_nat C - length samples) HT) as (-> & -> & ->).
  done.
Qed.

(** The decision of a call, read off the recent samples. *)
Lemma do_sync_recent (C T : Z) (s0 : sync) (samples : list Z) (d : Z) :
  1 <= C -> 0 <= T ->
  let s' := do_sync_update (fst (do_sync_all (fresh s0 C T) samples)) d in
  misses s' = count_out T (recent C (samples ++ [d])) /\
  out_of_sync_sum s' = sum_out T (recent C (samples ++ [d])) /\
  half_history_size s' = C / 2 /\
  do_sync_decide s' =
  Some (if count_out T (recent C (samples ++ [d])) >? C / 2
        then sum_out T (recent C (samples ++ [d]))
             ÷ count_out T (recent C (samples ++ [d]))
        else 0).
Proof.
  intros HC HT s'.
  assert (Hs' : s' = fst (do_sync_all (fresh s0 C T) (samples ++ [d]))).
  { subst s'. rewrite do_sync_all_app. simpl. done. }
  assert (Hinv : sync_inv C T s').
  { rewrite Hs'. apply sync_inv_all, sync_inv_fresh; assumption. }
  destruct (scans_window_recent C T s0 (samples ++ [d]) HC HT)
    as (_ & Hc & Hs).
  rewrite <- Hs' in Hc, Hs.
  rewrite (do_sync_decide_scan C T s' HC Hinv), Hc, Hs.
  rewrite (inv_misses _ _ _ Hinv), (inv_out_sum _ _ _ Hinv), Hc, Hs.
  rewrite (inv_half _ _ _ Hinv), half_is_floor by lia. done.
Qed.

(** The same on the 64-bit reading: the sum is held wrapped. *)
Lemma long_do_sync_recent (C T : Z) (s0 : sync) (samples : list Z) (d : Z) :
  1 <= C -> 0 <= T ->
  let m :=
    Long.do_sync_update (fst (Long.do_sync_all (fresh s0 C T) samples)) d in
  misses m = count_out T (recent C (samples ++ [d])) /\
  out_of_sync_sum m = wrap_long (sum_out T (recent C (samples ++ [d]))) /\
  half_history_size m = C / 2 /\
  do_sync_decide m =
  Some (if count_out T (recent C (samples ++ [d])) >? C / 2
        then wrap_long (sum_out T (recent C (samples ++ [d])))
             ÷ count_out T (recent C (samples ++ [d]))
        else 0).
Proof.
  intros HC HT m.
  destruct (long_call_wrapped C T s0 samples d HC HT) as (Hinv & Hwr).
  destruct (long_decide_scan C T _ m HC Hinv Hwr)
    as (Hw & Hmis & Hout & Hhalf & Hdec).
  destruct (do_sync_recent C T s0 samples d HC HT) as (Hc & Hs & _ & _).
  rewrite (inv_misses _ _ _ Hinv) in Hc.
  rewrite (inv_out_sum _ _ _ Hinv) in Hs.
  rewrite Hw in Hmis, Hout, Hdec. rewrite Hc, Hs in *. done.
Qed.

Lemma recent_snoc (C : Z) (l : list Z) (d : Z) :
  1 <= C -> recent C (l ++ [d]) = recent (C - 1) l ++ [d].
Proof.
  intros HC. unfold recent. rewrite length_app. simpl.
  rewrite drop_app_le by lia. do 2 f_equal. lia.
Qed.

Lemma recent_length (C : Z) (l : list Z) :
  (length (recent C l) <= length l)%nat.
Proof. unfold recent. rewrite length_drop. lia. Qed.

Lemma scans_in_range (T : Z) (l : list Z) :
  Forall (fun x => Z.abs x <= T) l ->
  count_out T l = 0 /\ sum_out T l = 0.
Proof.
  induction 1 as [|x l Hx _ (IH1 & IH2)]; simpl; [done|].
  rewrite IH1, IH2. unfold out_of_sync.
  destruct (Z.gtb_spec (Z.abs x) T); [lia|done].
Qed.

Lemma scans_constant (T v : Z) (n : nat) :
  out_of_sync T v = true ->
  count_out T (replicate n v) = Z.of_nat n /\
  sum_out T (replicate n v) = v * Z.of_nat n.
Proof.
  intros Hv. induction n as [|n (IH1 & IH2)]; simpl; [lia|].
  rewrite IH1, IH2, Hv. lia.
Qed.

(** X1.  The window is a queue of the last [C] values.  After a reset on a
    region of [C >= 1] slots, whatever it holds, and any run of calls, the
    window in order of age is the last [C] elements of the initial contents
    followed by the samples; the value the next call evicts is its head. *)
Theorem window_holds_last_samples
    (C T : Z) (s0 : sync) (addr samples : list Z) :
  1 <= C -> length addr = Z.to_nat C ->
  let h :=
    deviation_history (fst (do_sync_all (started s0 addr C T) samples)) in
  oldest_first h = drop (length samples) (addr ++ samples) /\
  head (oldest_first h) = Some (deviation_history_get_last h).
Proof.
  intros HC Hlen h. split; [by apply oldest_first_started|].
  assert (Hwf : wf C h).
  { subst h. rewrite do_sync_all_history.
    assert (Hgen : forall l h0, wf C h0 ->
              wf C (foldl deviation_history_insert h0 l)).
    { induction l as [|x l IH]; intros h0 Hh0; [done|].
      simpl. by apply IH, wf_insert. }
    apply Hgen. by apply wf_reset. }
  rewrite <- (wf_get_last C h Hwf). unfold oldest_first.
  destruct Hwf as (_ & Hblen & Hcur).
  rewrite head_lookup, lookup_app_l by (rewrite length_drop; lia).
  rewrite lookup_drop. f_equal. lia.
Qed.

Lemma window_holds_last_samples_witness :
  1 <= 3 /\ length [7; -7; 99] = Z.to_nat 3 /\
  oldest_first
    (deviation_history
       (fst (do_sync_all (started blank [7; -7; 99] 3 10) [1; 2; 3; 4]))) =
  [2; 3; 4].
Proof.
  split; [lia|]. split; [reflexivity|].
  apply (window_holds_last_samples 3 10 blank [7; -7; 99] [1; 2; 3; 4]);
    [lia | reflexivity].
Defined.

(** X2.  After a reset on a zeroed region of [C >= 1] slots with a threshold
    [T >= 0], what a call returns is decided by the last [C] samples, its own
    included, and by nothing else: 0 unless more than [C / 2] of them are
    out of range, and then the sum of the out-of-range ones, as the 64-bit
    field holds it, divided by their number.  When that sum fits the field,
    this is their truncated average. *)
Theorem return_decided_by_recent_samples
    (C T : Z) (s0 : sync) (samples : list Z) (d : Z) :
  1 <= C -> 0 <= T ->
  let call :=
    Long.more_than_half_do_sync
      (fst (Long.do_sync_all (fresh s0 C T) samples)) d in
  snd call =
  Some (if count_out T (recent C (samples ++ [d])) >? C / 2
        then wrap_long (sum_out T (recent C (samples ++ [d])))
             ÷ count_out T (recent C (samples ++ [d]))
        else 0) /\
  (long_min <= sum_out T (recent C (samples ++ [d])) <= long_max ->
   snd call =
   Some (if count_out T (recent C (samples ++ [d])) >? C / 2
         then sum_out T (recent C (samples ++ [d]))
              ÷ count_out T (recent C (samples ++ [d]))
         else 0)).
Proof.
  intros HC HT call. subst call.
  unfold Long.more_than_half_do_sync. cbn [snd].
  destruct (long_do_sync_recent C T s0 samples d HC HT) as (_ & _ & _ & ->).
  split; [done|]. intros Hfits. by rewrite wrap_long_id.
Qed.

Lemma return_decided_by_recent_samples_witness :
  1 <= 3 /\ 0 <= 10 /\
  snd (Long.more_than_half_do_sync
         (fst (Long.do_sync_all (fresh blank 3 10) [90; -80; 5; 20]))
         (-30)) =
  Some (-5).
Proof.
  split; [lia|]. split; [lia|].
  apply (return_decided_by_recent_samples 3 10 blank [90; -80; 5; 20] (-30));
    [lia | lia | vm_compute; split; discriminate].
Defined.

(** X3.  A history of one slot (the case the source leaves open, line 74)
    works as a plain threshold filter: after a reset on a zeroed region of
    capacity 1, every call returns its own sample when that is out of range
    and 0 otherwise. *)
Theorem single_slot_is_threshold_filter
    (T : Z) (s0 : sync) (samples : list Z) (d : Z) :
  0 <= T ->
  snd (more_than_half_do_sync
         (fst (do_sync_all (fresh s0 1 T) samples)) d) =
  Some (if out_of_sync T d then d else 0).
Proof.
  intros HT. unfold more_than_half_do_sync. cbn [snd].
  destruct (do_sync_recent 1 T s0 samples d ltac:(lia) HT)
    as (_ & _ & _ & ->).
  rewrite recent_snoc by lia. unfold recent.
  change (Z.to_nat (1 - 1)) with 0%nat. rewrite Nat.sub_0_r, drop_all.
  simpl. change (1 / 2) with 0.
  destruct (out_of_sync T d); simpl; [|done].
  by rewrite Z.add_0_r, Z.quot_1_r.
Qed.

Lemma single_slot_is_threshold_filter_witness :
  0 <= 10 /\
  snd (more_than_half_do_sync
         (fst (do_sync_all (fresh blank 1 10) [3; 50])) (-11)) = Some (-11).
Proof.
  split; [lia|].
  apply (single_slot_is_threshold_filter 10 blank [3; 50] (-11)). lia.
Defined.

(** X4.  No correction during warm-up: after a reset on a zeroed region,
    each of the first [C / 2] calls returns 0, whatever the samples. *)
Theorem warm_up_returns_zero
    (C T : Z) (s0 : sync) (samples : list Z) (d : Z) :
  1 <= C -> 0 <= T ->
  Z.of_nat (length (samples ++ [d])) <= C / 2 ->
  snd (more_than_half_do_sync
         (fst (do_sync_all (fresh s0 C T) samples)) d) = Some 0.
Proof.
  intros HC HT Hfew. unfold more_than_half_do_sync. cbn [snd].
  destruct (do_sync_recent C T s0 samples d HC HT) as (_ & _ & _ & ->).
  pose proof (count_out_bounds T (recent C (samples ++ [d]))) as Hb.
  pose proof (recent_length C (samples ++ [d])) as Hl.
  destruct (Z.gtb_spec (count_out T (recent C (samples ++ [d]))) (C / 2));
    [lia|done].
Qed.

Lemma warm_up_returns_zero_witness :
  1 <= 4 /\ 0 <= 10 /\
  snd (more_than_half_do_sync
         (fst (do_sync_all (fresh blank 4 10) [500])) (-700)) = Some 0.
Proof.
  split; [lia|]. split; [lia|].
  apply (warm_up_returns_zero 4 10 blank [500] (-700));
    [lia | lia | vm_compute; discriminate].
Defined.

(** X5.  A constant out-of-range deviation [v] is detected at call
    [C / 2 + 1] and corrected exactly, for as long as [C] times [|v|] fits a
    64-bit signed field: after a reset on a zeroed region, the call number
    [n + 1] of a run of [v]s returns 0 while [n + 1 <= C / 2] and [v] from
    then on. *)
Theorem constant_drift_detected
    (C T : Z) (s0 : sync) (v : Z) (n : nat) :
  1 <= C -> 0 <= T -> T < Z.abs v -> C * Z.abs v <= long_max ->
  snd (Long.more_than_half_do_sync
         (fst (Long.do_sync_all (fresh s0 C T) (replicate n v))) v) =
  Some (if Z.of_nat (S n) >? C / 2 then v else 0).
Proof.
  intros HC HT Hv Hfits. unfold Long.more_than_half_do_sync. cbn [snd].
  destruct (long_do_sync_recent C T s0 (replicate n v) v HC HT)
    as (_ & _ & _ & ->).
  assert (Hout : out_of_sync T v = true)
    by (unfold out_of_sync; destruct (Z.gtb_spec (Z.abs v) T); [done|lia]).
  replace (replicate n v ++ [v]) with (replicate (S n) v)
    by (by rewrite replicate_S_end).
  unfold recent. rewrite length_replicate, drop_replicate.
  destruct (scans_constant T v (S n - (S n - Z.to_nat C)) Hout) as (-> & ->).
  set (k := Z.of_nat (S n - (S n - Z.to_nat C))).
  assert (Hk : 0 <= k <= C) by lia.
  rewrite wrap_long_id by (unfold long_min, long_max in *; nia).
  assert (Hhalf : C / 2 < C) by (apply Z.div_lt; lia).
  destruct (Z.gtb_spec k (C / 2)),
           (Z.gtb_spec (Z.of_nat (S n)) (C / 2)); try lia; [|done].
  by rewrite Z.quot_mul by lia.
Qed.

Lemma constant_drift_detected_witness :
  1 <= 5 /\ 0 <= 10 /\ 10 < Z.abs (-25) /\ 5 * Z.abs (-25) <= long_max /\
  snd (Long.more_than_half_do_sync
         (fst (Long.do_sync_all (fresh blank 5 10) (replicate 2 (-25))))
         (-25)) =
  Some (-25).
Proof.
  split; [lia|]. split; [lia|]. split; [lia|].
  split; [vm_compute; discriminate|].
  apply (constant_drift_detected 5 10 blank (-25) 2);
    [lia | lia | lia | vm_compute; discriminate].
Defined.

(** X6.  Recovery: after a reset on a zeroed region, as soon as the last
    [C] samples are all within the threshold, [misses] and
    [out_of_sync_sum] are back to 0 and the call returns 0, whatever came
    before. *)
Theorem in_range_window_recovers
    (C T : Z) (s0 : sync) (samples : list Z) (d : Z) :
  1 <= C -> 0 <= T ->
  Forall (fun x => Z.abs x <= T) (recent C (samples ++ [d])) ->
  let call :=
    more_than_half_do_sync (fst (do_sync_all (fresh s0 C T) samples)) d in
  misses (fst call) = 0 /\ out_of_sync_sum (fst call) = 0 /\
  snd call = Some 0.
Proof.
  intros HC HT Hin call. subst call.
  unfold more_than_half_do_sync. cbn [fst snd].
  destruct (do_sync_recent C T s0 samples d HC HT) as (-> & -> & _ & ->).
  destruct (scans_in_range T _ Hin) as (-> & ->).
  assert (0 <= C / 2) by (apply Z.div_pos; lia).
  by destruct (Z.gtb_spec 0 (C / 2)); [lia|].
Qed.

Lemma in_range_window_recovers_witness :
  1 <= 2 /\ 0 <= 10 /\
  Forall (fun x => Z.abs x <= 10) (recent 2 ([40; 50; 60; -3] ++ [8])) /\
  snd (more_than_half_do_sync
         (fst (do_sync_all (fresh blank 2 10) [40; 50; 60; -3])) 8) = Some 0.
Proof.
  assert (Hin : Forall (fun x => Z.abs x <= 10)
                  (recent 2 ([40; 50; 60; -3] ++ [8])))
    by (repeat constructor; simpl; lia).
  split; [lia|]. split; [lia|]. split; [exact Hin|].
  apply (in_range_window_recovers 2 10 blank [40; 50; 60; -3] 8);
    [lia | lia | exact Hin].
Defined.

(** ** Bounds on the correction *)

Lemma sum_out_bounded (T M : Z) (l : list Z) :
  Forall (fun x => Z.abs x <= M) l ->
  Z.abs (sum_out T l) <= M * count_out T l.
Proof.
  induction 1 as [|x l Hx _ IH]; simpl; [lia|].
  destruct (out_of_sync T x); lia.
Qed.

Lemma sum_out_above (T : Z) (l : list Z) :
  Forall (fun x => - T <= x) l ->
  (T + 1) * count_out T l <= sum_out T l.
Proof.
  induction 1 as [|x l Hx _ IH]; simpl; [lia|].
  unfold out_of_sync. destruct (Z.gtb_spec (Z.abs x) T); lia.
Qed.

Lemma sum_out_below (T : Z) (l : list Z) :
  Forall (fun x => x <= T) l ->
  sum_out T l <= - (T + 1) * count_out T l.
Proof.
  induction 1 as [|x l Hx _ IH]; simpl; [lia|].
  unfold out_of_sync. destruct (Z.gtb_spec (Z.abs x) T); lia.
Qed.

(** X7.  The correction is never larger than the deviations it averages:
    after a reset on a zeroed region, when the last [C] samples are all
    within [M] in absolute value, the call returns a value within [M]. *)
Theorem correction_within_sample_bound
    (C T M : Z) (s0 : sync) (samples : list Z) (d : Z) :
  1 <= C -> 0 <= T ->
  Forall (fun x => Z.abs x <= M) (recent C (samples ++ [d])) ->
  exists r : Z,
    snd (more_than_half_do_sync
           (fst (do_sync_all (fresh s0 C T) samples)) d) = Some r /\
    Z.abs r <= M.
Proof.
  intros HC HT Hin. unfold more_than_half_do_sync. cbn [snd].
  destruct (do_sync_recent C T s0 samples d HC HT) as (_ & _ & _ & ->).
  eexists; split; [reflexivity|].
  pose proof (sum_out_bounded T M _ Hin) as Hsum.
  assert (HM : 0 <= M).
  { rewrite recent_snoc in Hin by done.
    apply Forall_app in Hin as [_ Hd]. inversion Hd; subst. lia. }
  assert (0 <= C / 2) by (apply Z.div_pos; lia).
  set (cnt := count_out T (recent C (samples ++ [d]))) in *.
  set (sm := sum_out T (recent C (samples ++ [d]))) in *.
  destruct (Z.gtb_spec cnt (C / 2)) as [Hgt|Hle]; [|lia].
  rewrite <- Z.quot_abs by lia. rewrite (Z.abs_eq cnt) by lia.
  transitivity ((M * cnt) ÷ cnt).
  - apply Z.quot_le_mono; lia.
  - rewrite Z.quot_mul by lia. lia.
Qed.

Lemma correction_within_sample_bound_witness :
  1 <= 3 /\ 0 <= 10 /\
  Forall (fun x => Z.abs x <= 45) (recent 3 ([900; 40; -45] ++ [44])) /\
  exists r : Z,
    snd (more_than_half_do_sync
           (fst (do_sync_all (fresh blank 3 10) [900; 40; -45])) 44) =
    Some r /\ Z.abs r <= 45.
Proof.
  assert (Hin : Forall (fun x => Z.abs x <= 45)
                  (recent 3 ([900; 40; -45] ++ [44])))
    by (repeat constructor; simpl; lia).
  split; [lia|]. split; [lia|]. split; [exact Hin|].
  apply (correction_within_sample_bound 3 10 45 blank [900; 40; -45] 44);
    [lia | lia | exact Hin].
Defined.

(** X8.  A one-sided drift is corrected on its side, beyond the threshold:
    after a reset on a zeroed region, when a call finds
    [misses > half_history_size], the sum of the out-of-range ones among the
    last [C] samples fits its 64-bit signed field, and none of the last [C]
    samples is below [-T], it returns a value above [T]; when none is above
    [T], it returns a value below [-T].  In both cases the value is not
    0. *)
Theorem one_sided_drift_correction
    (C T : Z) (s0 : sync) (samples : list Z) (d : Z) :
  1 <= C -> 0 <= T ->
  let call :=
    Long.more_than_half_do_sync
      (fst (Long.do_sync_all (fresh s0 C T) samples)) d in
  misses (fst call) > half_history_size (fst call) ->
  long_min <= sum_out T (recent C (samples ++ [d])) <= long_max ->
  (Forall (fun x => - T <= x) (recent C (samples ++ [d])) ->
   exists r : Z, snd call = Some r /\ T < r) /\
  (Forall (fun x => x <= T) (recent C (samples ++ [d])) ->
   exists r : Z, snd call = Some r /\ r < - T).
Proof.
  intros HC HT call. subst call.
  unfold Long.more_than_half_do_sync. cbn [fst snd].
  destruct (long_do_sync_recent C T s0 samples d HC HT)
    as (-> & _ & -> & ->).
  assert (0 <= C / 2) by (apply Z.div_pos; lia).
  set (cnt := count_out T (recent C (samples ++ [d]))) in *.
  set (sm := sum_out T (recent C (samples ++ [d]))) in *.
  intros Hmany Hfits. rewrite (wrap_long_id sm Hfits).
  destruct (Z.gtb_spec cnt (C / 2)) as [Hgt|Hle]; [|lia].
  split; intros Hside; eexists; (split; [reflexivity|]).
  - pose proof (sum_out_above T _ Hside) as Hsum. fold cnt sm in Hsum.
    assert ((T + 1) <= sm ÷ cnt); [|lia].
    rewrite <- (Z.quot_mul (T + 1) cnt) by lia.
    apply Z.quot_le_mono; lia.
  - pose proof (sum_out_below T _ Hside) as Hsum. fold cnt sm in Hsum.
    assert (sm ÷ cnt <= - (T + 1)); [|lia].
    rewrite <- (Z.quot_mul (- (T + 1)) cnt) by lia.
    apply Z.quot_le_mono; lia.
Qed.

Lemma one_sided_drift_correction_witness :
  1 <= 3 /\ 0 <= 10 /\
  exists r : Z,
    snd (Long.more_than_half_do_sync
           (fst (Long.do_sync_all (fresh blank 3 10) [-60; 4; 11])) 12) =
    Some r /\ 10 < r.
Proof.
  split; [lia|]. split; [lia|].
  apply (one_sided_drift_correction 3 10 blank [-60; 4; 11] 12);
    [lia | lia | vm_compute; reflexivity | vm_compute; split; discriminate |].
  repeat constructor; simpl; lia.
Defined.

(** ** What the returned values do not depend on *)

(** X9.  [total_sum] is kept up to date but never read: changing it in any
    state changes no value returned by any later call. *)
Theorem total_sum_never_read (s : sync) (v : Z) (samples : list Z) :
  snd (do_sync_all (set_total_sum s v) samples) =
  snd (do_sync_all s samples).
Proof.
  apply (same_decisions_all (max_deviation s)).
  split; try reflexivity.
  change (window (set_total_sum s v)) with (window s).
  apply Forall2_same_length_lookup. split; [done|].
  intros i x y Hx Hy. left. congruence.
Qed.

(** ** Drift ahead and drift behind *)

Lemma out_of_sync_opp (T x : Z) : out_of_sync T (- x) = out_of_sync T x.
Proof. unfold out_of_sync. by rewrite Z.abs_opp. Qed.

Lemma mirrored_get_last (a b : sync) :
  mirrored a b ->
  deviation_history_get_last (deviation_history a) =
  - deviation_history_get_last (deviation_history b).
Proof.
  intros Hab. unfold deviation_history_get_last.
  pose proof (mi_window a b Hab) as Hw. unfold window in Hw.
  rewrite Hw, (mi_cursor a b Hab), list_lookup_fmap.
  by destruct (buffer (deviation_history b) !! _).
Qed.

Lemma mirrored_update (a b : sync) (d : Z) :
  mirrored a b -> mirrored (do_sync_update a (- d)) (do_sync_update b d).
Proof.
  intros Hab. pose proof (mirrored_get_last a b Hab) as Hlast.
  destruct Hab as [Hmax Hhalf Hmis Hout Htot Hcap Hcur Hw].
  split; unfold window in *;
    rewrite ?do_sync_update_max, ?do_sync_update_half,
      ?do_sync_update_misses, ?do_sync_update_out_sum,
      ?do_sync_update_total, ?do_sync_update_history; simpl; try done.
  - by rewrite Hmax, Hmis, Hlast, !out_of_sync_opp.
  - rewrite Hmax, Hout, Hlast, !out_of_sync_opp.
    destruct (out_of_sync _ (deviation_history_get_last _));
      destruct (out_of_sync _ d); lia.
  - rewrite Htot, Hlast. lia.
  - by rewrite Hcap, Hcur.
  - by rewrite Hw, Hcur, list_fmap_insert.
Qed.

Lemma mirrored_decide (a b : sync) :
  mirrored a b -> do_sync_decide a = Z.opp <$> do_sync_decide b.
Proof.
  intros [_ Hhalf Hmis Hout _ _ _ _]. unfold do_sync_decide, c_div.
  rewrite Hhalf, Hmis, Hout.
  destruct (misses b >? half_history_size b); [|done].
  destruct (Z.eqb_spec (misses b) 0); simpl; [done|].
  by rewrite Z.quot_opp_l.
Qed.

Lemma mirrored_all (samples : list Z) (a b : sync) :
  mirrored a b ->
  snd (do_sync_all a (fmap (M:=list) Z.opp samples)) =
  fmap (M:=list) (fmap (M:=option) Z.opp) (snd (do_sync_all b samples)).
Proof.
  revert a b. induction samples as [|d rest IH]; intros a b Hab; [done|].
  pose proof (mirrored_update a b d Hab) as Hab'.
  specialize (IH _ _ Hab').
  cbn [fmap list_fmap do_sync_all more_than_half_do_sync].
  rewrite (mirrored_decide _ _ Hab').
  destruct (do_sync_all (do_sync_update a (- d)) (fmap (M:=list) Z.opp rest)),
           (do_sync_all (do_sync_update b d) rest).
  cbn [snd] in *. by rewrite IH.
Qed.

(** For as long as [C] samples of the largest size fit a 64-bit signed
    field, the 64-bit reading returns what the exact one returns. *)
Lemma long_returns_exact (C T B : Z) (samples : list Z) :
  forall e m : sync,
    1 <= C -> 0 <= B -> C * B <= long_max ->
    wrapped e m -> sync_inv C T e ->
    Forall (fun x => Z.abs x <= B) (window e) ->
    Forall (fun x => Z.abs x <= B) samples ->
    snd (Long.do_sync_all m samples) = snd (do_sync_all e samples).
Proof.
  induction samples as [|d rest IH];
    intros e m HC HB Hfits Hwr Hinv Hwin Hall; [done|].
  apply Forall_cons in Hall as [Hd Hrest].
  pose proof (wrapped_update e m d Hwr) as Hwr'.
  pose proof (sync_inv_update C T e d Hinv) as Hinv'.
  assert (Hwin' : Forall (fun x => Z.abs x <= B)
                    (window (do_sync_update e d))).
  { unfold window in *. rewrite do_sync_update_history. simpl.
    by apply Forall_insert. }
  specialize (IH _ _ HC HB Hfits Hwr' Hinv' Hwin' Hrest).
  assert (Hdec : do_sync_decide (Long.do_sync_update m d) =
                 do_sync_decide (do_sync_update e d)).
  { unfold do_sync_decide.
    rewrite (wr_misses _ _ Hwr'), (wr_half _ _ Hwr'), (wr_out_sum _ _ Hwr').
    rewrite wrap_long_id; [done|].
    rewrite (inv_out_sum _ _ _ Hinv').
    pose proof (sum_out_bounded T B _ Hwin') as Hsum.
    pose proof (count_out_bounds T (window (do_sync_update e d))) as Hcnt.
    destruct (inv_history _ _ _ Hinv') as (_ & Hlen & _).
    unfold window in *. unfold long_min, long_max in *. nia. }
  cbn [do_sync_all Long.do_sync_all more_than_half_do_sync
       Long.more_than_half_do_sync].
  rewrite Hdec.
  destruct (Long.do_sync_all (Long.do_sync_update m d) rest),
           (do_sync_all (do_sync_update e d) rest).
  cbn [snd] in *. by rewrite IH.
Qed.

Lemma zeroed_bounded (C B : Z) :
  0 <= B -> Forall (fun x => Z.abs x <= B) (zeroed C).
Proof.
  intros HB. unfold zeroed. apply Forall_replicate. simpl. lia.
Qed.

(** X10.  Ahead and behind are treated alike, for as long as [C] samples of
    the largest size fit a 64-bit signed field: after a reset on a zeroed
    region, negating every sample negates every value returned, and leaves
    the calls that return 0 the same. *)
Theorem mirrored_samples_mirrored_returns
    (C T B : Z) (s0 : sync) (samples : list Z) :
  1 <= C -> 0 <= T -> C * B <= long_max ->
  Forall (fun x => Z.abs x <= B) samples ->
  snd (Long.do_sync_all (fresh s0 C T) (fmap (M:=list) Z.opp samples)) =
  fmap (M:=list) (fmap (M:=option) Z.opp)
       (snd (Long.do_sync_all (fresh s0 C T) samples)).
Proof.
  intros HC HT Hfits Hall.
  destruct samples as [|x rest]; [done|].
  assert (HB : 0 <= B) by (apply Forall_cons in Hall as [Hx _]; lia).
  assert (Hwr : wrapped (fresh s0 C T) (fresh s0 C T))
    by apply (wrapped_started s0 (zeroed C) C T).
  assert (Hinv : sync_inv C T (fresh s0 C T)) by (by apply sync_inv_fresh).
  assert (Hzero : Forall (fun y => Z.abs y <= B) (window (fresh s0 C T)))
    by (by apply zeroed_bounded).
  assert (Hopp : Forall (fun y => Z.abs y <= B)
                   (fmap (M:=list) Z.opp (x :: rest))).
  { apply Forall_fmap. eapply Forall_impl; [exact Hall|].
    intros y Hy. simpl. by rewrite Z.abs_opp. }
  rewrite (long_returns_exact C T B _ _ _ HC HB Hfits Hwr Hinv Hzero Hall).
  rewrite (long_returns_exact C T B _ _ _ HC HB Hfits Hwr Hinv Hzero Hopp).
  apply mirrored_all. split; try reflexivity.
  unfold fresh, window; simpl. unfold zeroed.
  by rewrite fmap_replicate.
Qed.

Lemma mirrored_samples_mirrored_returns_witness :
  1 <= 2 /\ 0 <= 10 /\ 2 * 50 <= long_max /\
  snd (Long.do_sync_all (fresh blank 2 10) [-30; -50; -4]) =
  [Some 0; Some (-40); Some 0].
Proof.
  assert (Hall : Forall (fun x => Z.abs x <= 50) [30; 50; 4])
    by (repeat constructor; simpl; lia).
  split; [lia|]. split; [lia|]. split; [vm_compute; discriminate|].
  exact (mirrored_samples_mirrored_returns 2 10 50 blank [30; 50; 4]
           ltac:(lia) ltac:(lia) ltac:(vm_compute; discriminate) Hall).
Defined.

(** ** A region that was not zeroed *)

Lemma offsets_update (C : Z) (s : sync) (d : Z) :
  wf C (deviation_history s) ->
  let T := max_deviation s in
  let s' := do_sync_update s d in
  misses s' - count_out T (window s') = misses s - count_out T (window s) /\
  out_of_sync_sum s' - sum_out T (window s') =
    out_of_sync_sum s - sum_out T (window s) /\
  total_sum s' - sum_all (window s') = total_sum s - sum_all (window s).
Proof.
  intros Hwf T s'. subst T s'.
  pose proof (wf_get_last C _ Hwf) as Hlast. unfold window.
  rewrite do_sync_update_misses, do_sync_update_out_sum,
    do_sync_update_total, do_sync_update_history. simpl.
  rewrite (count_out_insert _ _ _ _ d Hlast),
    (sum_out_insert _ _ _ _ d Hlast), (sum_all_insert _ _ _ d Hlast).
  lia.
Qed.

Lemma offsets_all (C T : Z) (samples : list Z) (s : sync) :
  wf C (deviation_history s) -> max_deviation s = T ->
  let s' := fst (do_sync_all s samples) in
  misses s' - count_out T (window s') = misses s - count_out T (window s) /\
  out_of_sync_sum s' - sum_out T (window s') =
    out_of_sync_sum s - sum_out T (window s) /\
  total_sum s' - sum_all (window s') = total_sum s - sum_all (window s).
Proof.
  revert s. induction samples as [|d rest IH]; intros s Hwf Hmax; [done|].
  cbv zeta. rewrite do_sync_all_update.
  destruct (offsets_update C s d Hwf) as (H1 & H2 & H3). rewrite Hmax in *.
  destruct (IH (do_sync_update s d)) as (I1 & I2 & I3).
  - rewrite do_sync_update_history. by apply wf_insert.
  - by rewrite do_sync_update_max.
  - lia.
Qed.

(** X11.  The counters follow the window only up to what the region held at
    the reset.  After a reset on a region of [C >= 1] slots with any
    contents, after every call each of the two sums holds, wrapped to its
    64 bits, the scan of the window less the scan of those initial
    contents, and [misses] is the count over the window less the count over
    the initial contents whenever that is not negative: the calls never
    bring the counters back in line by themselves. *)
Theorem counters_keep_initial_offset
    (C T : Z) (s0 : sync) (addr samples : list Z) :
  1 <= C -> length addr = Z.to_nat C ->
  let s := fst (Long.do_sync_all (started s0 addr C T) samples) in
  total_sum s = wrap_long (sum_all (window s) - sum_all addr) /\
  out_of_sync_sum s = wrap_long (sum_out T (window s) - sum_out T addr) /\
  (count_out T addr <= count_out T (window s) ->
   misses s = count_out T (window s) - count_out T addr).
Proof.
  intros HC Hlen s.
  pose proof (wrapped_all samples _ _ (wrapped_started s0 addr C T)) as Hwr.
  fold s in Hwr.
  destruct (offsets_all C T samples (started s0 addr C T))
    as (H1 & H2 & H3); [by apply wf_reset | done |].
  set (e := fst (do_sync_all (started s0 addr C T) samples)) in *.
  assert (Hw : window s = window e)
    by (unfold window; by rewrite (wr_history _ _ Hwr)).
  unfold started, window in H1, H2, H3. simpl in H1, H2, H3.
  rewrite (wr_total _ _ Hwr), (wr_out_sum _ _ Hwr), (wr_misses _ _ Hwr), Hw.
  unfold window.
  split; [f_equal; lia|]. split; [f_equal; lia|]. intros _. lia.
Qed.

Lemma counters_keep_initial_offset_witness :
  1 <= 2 /\ length [50; 3] = Z.to_nat 2 /\
  out_of_sync_sum
    (fst (Long.do_sync_all (started blank [50; 3] 2 10) [1; 2; 30])) =
  wrap_long
    (sum_out 10
       (window (fst (Long.do_sync_all (started blank [50; 3] 2 10)
                       [1; 2; 30])))
     - sum_out 10 [50; 3]).
Proof.
  split; [lia|]. split; [reflexivity|].
  apply (counters_keep_initial_offset 2 10 blank [50; 3] [1; 2; 30]);
    [lia | reflexivity].
Defined.

(** ** Tuning the threshold *)

Lemma count_out_antitone (T T' : Z) (l : list Z) :
  T <= T' -> count_out T' l <= count_out T l.
Proof.
  intros HT. induction l as [|x l IH]; simpl; [lia|].
  unfold out_of_sync.
  destruct (Z.gtb_spec (Z.abs x) T'), (Z.gtb_spec (Z.abs x) T); lia.
Qed.

(** X12.  A larger allowed deviation never adds a correction: for the same
    samples after a reset on a zeroed region, a call that finds
    [misses <= half_history_size] under the threshold [T] finds no more
    misses under any [T' >= T], and returns 0 there. *)
Theorem larger_threshold_no_new_correction
    (C T T' : Z) (s0 : sync) (samples : list Z) (d : Z) :
  1 <= C -> 0 <= T -> T <= T' ->
  let call :=
    more_than_half_do_sync (fst (do_sync_all (fresh s0 C T) samples)) d in
  let call' :=
    more_than_half_do_sync (fst (do_sync_all (fresh s0 C T') samples)) d in
  misses (fst call) <= half_history_size (fst call) ->
  misses (fst call') <= misses (fst call) /\ snd call' = Some 0.
Proof.
  intros HC HT HT' call call'. subst call call'.
  unfold more_than_half_do_sync. cbn [fst snd].
  destruct (do_sync_recent C T s0 samples d HC HT) as (-> & _ & -> & _).
  destruct (do_sync_recent C T' s0 samples d HC ltac:(lia))
    as (-> & _ & _ & ->).
  intros Hfew.
  pose proof (count_out_antitone T T' (recent C (samples ++ [d])) HT').
  split; [done|].
  by destruct (Z.gtb_spec (count_out T' (recent C (samples ++ [d]))) (C / 2));
    [lia|].
Qed.

Lemma larger_threshold_no_new_correction_witness :
  1 <= 3 /\ 0 <= 10 /\ 10 <= 25 /\
  snd (more_than_half_do_sync
         (fst (do_sync_all (fresh blank 3 25) [30; 4; 5])) 20) = Some 0.
Proof.
  split; [lia|]. split; [lia|]. split; [lia|].
  apply (larger_threshold_no_new_correction 3 10 25 blank [30; 4; 5] 20);
    [lia | lia | lia | vm_compute; discriminate].
Defined.
